(** * Review aggregation and tour rating summary

    Shallow embedding of the review model (reviewSchema, its hooks and the
    static [calcAverageRatings]) and of the part of the tour model
    (tourSchema) that the summary write goes through: the [ratingsAverage]
    setter and the [pre(/^find/)] query middleware.

    Conventions of the embedding:
    - a JavaScript Number is an exact rational ([Q]); equalities between
      numbers are stated with [==];
    - a value that may be [null]/[undefined] is an [option];
    - the collections are explicit state: tours are keyed by their
      ObjectId, reviews are kept in insertion order (the order [findOne]
      scans them in);
    - awaited calls are sequenced in a state-and-error monad whose state
      survives an error, because a rejected promise does not undo the
      writes that were already acknowledged. *)

From Stdlib Require Import QArith Qround ZArith Lqa.
From stdpp Require Import base option list gmap strings.

Local Open Scope Q_scope.

(** ** Numbers *)

Definition Number := Q.

(** [Math.round]: the nearest integer, ties towards +infinity. *)
Definition Math_round (x : Number) : Z := Qfloor (x + (1 # 2)).

(** Numeric coercion of a possibly-null operand ([null * 10] is [0]). *)
Definition to_number (v : option Number) : Number :=
  match v with
  | Some q => q
  | None => 0
  end.

Fixpoint Qsum (l : list Number) : Number :=
  match l with
  | [] => 0
  | x :: l' => x + Qsum l'
  end.

Definition count_of {A} (l : list A) : Number := inject_Z (Z.of_nat (length l)).

(** Arithmetic mean of a non-empty list of numbers. *)
Definition mean (l : list Number) : Number := Qsum l / count_of l.

(** ** Documents *)

Definition ObjectId := N.

(** tourSchema: the summary fields, [secretTour], and some of the fields
    a summary write must carry over unchanged. *)
Record Tour := mkTour {
  name : string;
  duration : Number;
  maxGroupSize : Number;
  difficulty : string;
  ratingsAverage : Number;
  ratingsQuantity : Number;
  price : Number;
  secretTour : bool
}.

(** reviewSchema: [rating] carries no [required] validator, so a stored
    review may lack it. [createdAt] plays no part in the hooks and is left
    out. *)
Record Review := mkReview {
  _id : ObjectId;
  review : string;
  rating : option Number;
  tour : ObjectId;
  user : ObjectId
}.

(** The fields handed to [Review.create]; any of them may be missing. *)
Record ReviewInput := mkInput {
  in_review : option string;
  in_rating : option Number;
  in_tour : option ObjectId;
  in_user : option ObjectId
}.

(** The fields of an update document ([$set] of the fields given). *)
Record ReviewUpdate := mkUpdate {
  set_review : option string;
  set_rating : option Number;
  set_tour : option ObjectId;
  set_user : option ObjectId
}.

(** One output document of the [$group] stage. *)
Record Stats := mkStats {
  stats_id : ObjectId;
  nRating : Number;
  avgRating : option Number
}.

(** ** Errors and the store *)

Inductive Error :=
| ValidationError (paths : list string)
| DuplicateKeyError
| TypeError
| StoreUnavailable.

Inductive Result (A : Type) :=
| Ok (a : A)
| Err (e : Error).
Arguments Ok {A} a.
Arguments Err {A} e.

(** Where the store lets the recompute down, if anywhere. *)
Inductive Fault := NoFault | AggregateFails | UpdateFails.

#[global] Instance Fault_eq_dec : EqDecision Fault.
Proof. solve_decision. Defined.

(** [calls] is a ghost trace: the tour ids [calcAverageRatings] was invoked
    with, oldest first. *)
Record World := mkWorld {
  tours : gmap ObjectId Tour;
  reviews : list Review;
  next_id : ObjectId;
  calls : list ObjectId
}.

Definition M (A : Type) := World -> Result A * World.

Definition ret {A} (a : A) : M A := fun w => (Ok a, w).

Definition throw {A} (e : Error) : M A := fun w => (Err e, w).

Definition bind {A B} (m : M A) (k : A -> M B) : M B :=
  fun w =>
    match m w with
    | (Ok a, w') => k a w'
    | (Err e, w') => (Err e, w')
    end.

(** A call whose promise is not awaited: its writes happen, its outcome
    (value or rejection) is not seen by the caller. *)
Definition not_awaited {A} (m : M A) : M unit :=
  fun w => (Ok tt, snd (m w)).

#[global] Instance M_ret : MRet M := @ret.
#[global] Instance M_bind : MBind M := fun A B k m => bind m k.

Definition get_reviews : M (list Review) := fun w => (Ok (reviews w), w).

Definition put_reviews (l : list Review) : M unit :=
  fun w => (Ok tt, mkWorld (tours w) l (next_id w) (calls w)).

Definition put_tours (ts : gmap ObjectId Tour) : M unit :=
  fun w => (Ok tt, mkWorld ts (reviews w) (next_id w) (calls w)).

Definition fresh_id : M ObjectId :=
  fun w => (Ok (next_id w),
            mkWorld (tours w) (reviews w) (N.succ (next_id w)) (calls w)).

Definition log_call (tourId : ObjectId) : M unit :=
  fun w => (Ok tt,
            mkWorld (tours w) (reviews w) (next_id w) (calls w ++ [tourId])).

(** ** Tour model *)

(** [set: (val) => Math.round(val * 10) / 10]. *)
Definition ratingsAverage_set (val : option Number) : Number :=
  inject_Z (Math_round (to_number val * 10)) / 10.

(** [tourSchema.pre(/^find/)]: every query whose name starts with "find"
    gets the extra condition [secretTour: { $ne: true }]. The second
    [/^find/] hook only populates [guides] and changes no condition. *)
Definition tour_pre_find (conditions : Tour -> bool) : Tour -> bool :=
  fun t => conditions t && negb (secretTour t).

(** The update document of the summary write. *)
Record SummaryUpdate := mkSummary {
  upd_ratingsQuantity : Number;
  upd_ratingsAverage : option Number
}.

Definition tour_apply (u : SummaryUpdate) (t : Tour) : Tour :=
  mkTour (name t) (duration t) (maxGroupSize t) (difficulty t)
         (ratingsAverage_set (upd_ratingsAverage u))
         (upd_ratingsQuantity u)
         (price t) (secretTour t).

(** [Tour.findByIdAndUpdate(id, update)]: a [findOneAndUpdate] on
    [{ _id: id }], hence subject to the [/^find/] middleware; update
    values pass through the schema setters; update validators are off by
    default; a query that matches nothing resolves to [null] without
    error. *)
Definition Tour_findByIdAndUpdate (ft : Fault) (id : ObjectId)
    (u : SummaryUpdate) : M (option Tour) :=
  fun w =>
    match ft with
    | UpdateFails => (Err StoreUnavailable, w)
    | _ =>
      match tours w !! id with
      | Some t =>
        if tour_pre_find (fun _ => true) t
        then (Ok (Some t), snd (put_tours (<[id := tour_apply u t]> (tours w)) w))
        else (Ok None, w)
      | None => (Ok None, w)
      end
    end.

(** ** Review model *)

(** Schema validators. [required] on a String rejects a missing value and
    the empty string; [min]/[max] accept a missing value. *)
Definition required_string (v : option string) : bool :=
  match v with
  | Some s => negb (String.eqb s "")
  | None => false
  end.

Definition required_ref (v : option ObjectId) : bool :=
  match v with
  | Some _ => true
  | None => false
  end.

Definition rating_min_max (v : option Number) : bool :=
  match v with
  | Some q => Qle_bool 1 q && Qle_bool q 5
  | None => true
  end.

(** The paths that fail validation, in schema order. *)
Definition validate (i : ReviewInput) : list string :=
  (if required_string (in_review i) then [] else ["review"%string]) ++
  (if rating_min_max (in_rating i) then [] else ["rating"%string]) ++
  (if required_ref (in_tour i) then [] else ["tour"%string]) ++
  (if required_ref (in_user i) then [] else ["user"%string]).

(** [reviewSchema.index({ tour: 1, user: 1 }, { unique: true })]. *)
Definition index_key (r : Review) : ObjectId * ObjectId := (tour r, user r).

Definition index_has (k : ObjectId * ObjectId) (l : list Review) : bool :=
  bool_decide (k ∈ index_key <$> l).

(** The aggregation pipeline of [calcAverageRatings]. *)
Definition match_tour (tourId : ObjectId) (docs : list Review) : list Review :=
  filter (fun r => tour r = tourId) docs.

Fixpoint group_insert (r : Review) (gs : list (ObjectId * list Review))
    : list (ObjectId * list Review) :=
  match gs with
  | [] => [(tour r, [r])]
  | (k, ds) :: gs' =>
    if decide (k = tour r) then (k, ds ++ [r]) :: gs'
    else (k, ds) :: group_insert r gs'
  end.

(** [$group] with [_id: '$tour']: one group per distinct tour. *)
Definition group_by_tour (docs : list Review) : list (ObjectId * list Review) :=
  fold_left (fun gs r => group_insert r gs) docs [].

(** The values [$avg] takes into account: the numeric ones. *)
Definition numeric_ratings (docs : list Review) : list Number :=
  omap rating docs.

(** [$avg: '$rating']: the mean of the numeric values, [null] when there
    is none. *)
Definition avg_rating (docs : list Review) : option Number :=
  match numeric_ratings docs with
  | [] => None
  | nums => Some (mean nums)
  end.

Definition group_stats (g : ObjectId * list Review) : Stats :=
  mkStats (fst g) (count_of (snd g)) (avg_rating (snd g)).

Definition Review_aggregate (ft : Fault) (tourId : ObjectId) : M (list Stats) :=
  match ft with
  | AggregateFails => throw StoreUnavailable
  | _ =>
    docs ← get_reviews;
    mret (group_stats <$> group_by_tour (match_tour tourId docs))
  end.

Definition calcAverageRatings (ft : Fault) (tourId : ObjectId) : M unit :=
  log_call tourId;;
  stats ← Review_aggregate ft tourId;
  match stats with
  | s :: _ =>
    Tour_findByIdAndUpdate ft tourId (mkSummary (nRating s) (avgRating s));;
    mret tt
  | [] =>
    Tour_findByIdAndUpdate ft tourId (mkSummary 0 (Some 4.5));;
    mret tt
  end.

(** [reviewSchema.post('save')]: the recompute is started, not awaited;
    here it runs to completion before the next operation. *)
Definition post_save (ft : Fault) (this : Review) : M unit :=
  not_awaited (calcAverageRatings ft (tour this)).

(** [Review.create(fields)]: validation, then the insert under the unique
    index, then the post-save hook. *)
Definition Review_create (ft : Fault) (i : ReviewInput) : M Review :=
  match validate i, in_review i, in_tour i, in_user i with
  | [], Some s, Some t, Some u =>
    docs ← get_reviews;
    if index_has (t, u) docs then throw DuplicateKeyError
    else
      id ← fresh_id;
      let doc := mkReview id s (in_rating i) t u in
      put_reviews (docs ++ [doc]);;
      post_save ft doc;;
      mret doc
  | paths, _, _, _ => throw (ValidationError paths)
  end.

Definition findOne (conditions : Review -> bool) (docs : list Review)
    : option Review :=
  List.find conditions docs.

Definition review_apply (u : ReviewUpdate) (r : Review) : Review :=
  mkReview (_id r)
           (default (review r) (set_review u))
           (match set_rating u with Some q => Some q | None => rating r end)
           (default (tour r) (set_tour u))
           (default (user r) (set_user u)).

Fixpoint replace_first (p : Review -> bool) (d : Review) (l : list Review)
    : list Review :=
  match l with
  | [] => []
  | x :: l' => if p x then d :: l' else x :: replace_first p d l'
  end.

Fixpoint remove_first (p : Review -> bool) (l : list Review) : list Review :=
  match l with
  | [] => []
  | x :: l' => if p x then l' else x :: remove_first p l'
  end.

(** The update itself: the first matching document gets the new fields;
    the unique index rejects a key that another document already holds.
    Resolves to the document as it was before the update, or [null]. *)
Definition exec_findOneAndUpdate (conditions : Review -> bool)
    (u : ReviewUpdate) : M (option Review) :=
  docs ← get_reviews;
  match findOne conditions docs with
  | None => mret None
  | Some d =>
    let d' := review_apply u d in
    if bool_decide (index_key d' ≠ index_key d) && index_has (index_key d') docs
    then throw DuplicateKeyError
    else put_reviews (replace_first conditions d' docs);; mret (Some d)
  end.

Definition exec_findOneAndDelete (conditions : Review -> bool)
    : M (option Review) :=
  docs ← get_reviews;
  put_reviews (remove_first conditions docs);;
  mret (findOne conditions docs).

(** [reviewSchema.pre(/^findOneAnd/)]: [this.r = await this.findOne()].
    The [/^find/] hook of the review schema populates [user] on the way,
    which leaves [tour] as stored. The captured document is handed to the
    post hook. *)
Definition pre_findOneAnd (conditions : Review -> bool) : M (option Review) :=
  docs ← get_reviews;
  mret (findOne conditions docs).

(** [reviewSchema.post(/^findOneAnd/)]:
    [await this.r.constructor.calcAverageRatings(this.r.tour)];
    reading a property of [null] throws. *)
Definition post_findOneAnd (ft : Fault) (r : option Review) : M unit :=
  match r with
  | Some d => calcAverageRatings ft (tour d)
  | None => throw TypeError
  end.

Definition Review_findOneAndUpdate (ft : Fault) (conditions : Review -> bool)
    (u : ReviewUpdate) : M (option Review) :=
  r ← pre_findOneAnd conditions;
  res ← exec_findOneAndUpdate conditions u;
  post_findOneAnd ft r;;
  mret res.

Definition Review_findOneAndDelete (ft : Fault) (conditions : Review -> bool)
    : M (option Review) :=
  r ← pre_findOneAnd conditions;
  res ← exec_findOneAndDelete conditions;
  post_findOneAnd ft r;;
  mret res.

(** The review mutations, as one type. *)
Inductive Op :=
| OpCreate (i : ReviewInput)
| OpUpdate (conditions : Review -> bool) (u : ReviewUpdate)
| OpDelete (conditions : Review -> bool).

Definition run (ft : Fault) (o : Op) (w : World) : World :=
  match o with
  | OpCreate i => snd (Review_create ft i w)
  | OpUpdate c u => snd (Review_findOneAndUpdate ft c u w)
  | OpDelete c => snd (Review_findOneAndDelete ft c w)
  end.

(** ** Sample data *)

Definition sample_tour (secret : bool) : Tour :=
  mkTour "The Forest Hiker" 5 25 "easy" 4.5 0 397 secret.

Definition world0 : World :=
  mkWorld (<[1%N := sample_tour false]> (<[2%N := sample_tour true]> ∅)) [] 100%N [].

Definition input (s : string) (q : Number) (t u : ObjectId) : ReviewInput :=
  mkInput (Some s) (Some q) (Some t) (Some u).

Definition by_tour_user (t u : ObjectId) : Review -> bool :=
  fun r => bool_decide (tour r = t) && bool_decide (user r = u).


(** ** Vocabulary of the statements *)

(** What the recompute writes, and where it lands. *)
Definition aggregate_summary (ms : list Review) : SummaryUpdate :=
  match ms with
  | [] => mkSummary 0 (Some 4.5)
  | _ => mkSummary (count_of ms) (avg_rating ms)
  end.

Definition summary_write (t : ObjectId) (u : SummaryUpdate)
    (ts : gmap ObjectId Tour) : gmap ObjectId Tour :=
  match ts !! t with
  | Some tr => if secretTour tr then ts else <[t := tour_apply u tr]> ts
  | None => ts
  end.

(** The state in which the post-save hook runs: the review is stored. *)
Definition persisted (d : Review) (w : World) : World :=
  mkWorld (tours w) (reviews w ++ [d]) (N.succ (next_id w)) (calls w).

(** The store after a review mutation that leaves [docs]. *)
Definition with_reviews (docs : list Review) (w : World) : World :=
  mkWorld (tours w) docs (next_id w) (calls w).

(** An awaited recompute followed by returning [a]. *)
Definition after_recompute {A} (ft : Fault) (t : ObjectId) (a : A) (w : World)
    : Result A * World :=
  match calcAverageRatings ft t w with
  | (Ok _, w') => (Ok a, w')
  | (Err e, w') => (Err e, w')
  end.





Definition world_554 : World :=
  mkWorld (<[1%N := sample_tour false]> ∅)
          [mkReview 100%N "great" (Some 5) 1%N 7%N;
           mkReview 101%N "great" (Some 5) 1%N 8%N;
           mkReview 102%N "good" (Some 4) 1%N 9%N]
          103%N [].

Definition stale_secret_tour : Tour :=
  mkTour "The Hidden Valley" 3 10 "medium" 3 2 497 true.

Definition world_secret : World :=
  mkWorld (<[2%N := stale_secret_tour]> ∅) [] 100%N [].


(** The recompute of a tour without reviews, as worded for every tour:
    quantity 0 and average 4.5 end up on the tour. *)
Definition default_summary_recompute (w : World) (t : ObjectId) : Prop :=
  exists tr',
    tours (snd (calcAverageRatings NoFault t w)) !! t = Some tr' /\
    ratingsQuantity tr' == 0 /\
    ratingsAverage tr' == 4.5.

(** ** Further vocabulary: targets, consistency, tour queries *)

(** The tour a review mutation recomputes, if it gets that far: the tour
    of the new review, or of the review the pre hook captures. *)
Definition recompute_target (o : Op) (w : World) : option ObjectId :=
  match o with
  | OpCreate i => in_tour i
  | OpUpdate c _ => tour <$> findOne c (reviews w)
  | OpDelete c => tour <$> findOne c (reviews w)
  end.

(** Two tour records that differ at most in their summary fields. *)
Definition same_but_summary (tr tr' : Tour) : Prop :=
  name tr' = name tr /\ duration tr' = duration tr /\
  maxGroupSize tr' = maxGroupSize tr /\ difficulty tr' = difficulty tr /\
  price tr' = price tr /\ secretTour tr' = secretTour tr.






(** ** User model

    The part of userSchema that deals with the time of a password change.
    A Date is its [getTime()], milliseconds since the epoch. *)

Module User.

Record Doc := mkDoc {
  name : string;
  email : string;
  photo : string;
  role : string;
  password : string;
  passwordConfirm : option string;
  passwordChangedAt : option Z;
  passwordResetToken : option string;
  passwordResetExpires : option Z;
  active : bool;
  (* document state consulted by the save hooks *)
  isNew : bool;
  isModified_password : bool
}.

(** [parseInt(x, 10)] of a number: the digits before the decimal point of
    its decimal notation, that is truncation towards zero; every quotient
    of a Date's milliseconds by 1000 is printed in that notation. *)
Definition parseInt10 (x : Number) : Z := Z.quot (Qnum x) (Z.pos (Qden x)).

(** [userSchema.methods.changedPasswordAfter]. *)
Definition changedPasswordAfter (this : Doc) (JWTTimestamp : Z) : bool :=
  match passwordChangedAt this with
  | Some changed =>
    let changedTimeStamp := parseInt10 (inject_Z changed / 1000) in
    (JWTTimestamp <? changedTimeStamp)%Z
  | None => false
  end.

(** The second [userSchema.pre('save')] hook; [now] is [Date.now()]. *)
Definition pre_save_passwordChangedAt (now : Z) (this : Doc) : Doc :=
  if negb (isModified_password this) || isNew this then this
  else mkDoc (name this) (email this) (photo this) (role this)
             (password this) (passwordConfirm this)
             (Some (now - 1000)%Z)
             (passwordResetToken this) (passwordResetExpires this)
             (active this) (isNew this) (isModified_password this).

End User.

(** ** The aggregation pipeline *)

Ltac unfold_M :=
  unfold mbind, M_bind, bind, mret, M_ret, ret, get_reviews, put_reviews, throw.

Lemma group_fold_same (t : ObjectId) (docs acc : list Review) :
  Forall (fun r => tour r = t) docs ->
  fold_left (fun gs r => group_insert r gs) docs [(t, acc)] = [(t, acc ++ docs)].
Proof.
  intros H. revert acc.
  induction H as [|r docs Hr _ IH]; intros acc; simpl.
  - by rewrite app_nil_r.
  - rewrite decide_True by done.
    rewrite IH. by rewrite <- app_assoc.
Qed.

Lemma group_by_tour_same (t : ObjectId) (docs : list Review) :
  Forall (fun r => tour r = t) docs ->
  group_by_tour docs = match docs with [] => [] | _ => [(t, docs)] end.
Proof.
  intros H. destruct H as [|r docs Hr H]; [done|].
  unfold group_by_tour. simpl. rewrite Hr.
  by rewrite group_fold_same.
Qed.

Lemma match_tour_Forall (t : ObjectId) (docs : list Review) :
  Forall (fun r => tour r = t) (match_tour t docs).
Proof.
  apply Forall_forall. intros r Hr.
  unfold match_tour in Hr. by apply list_elem_of_filter in Hr as [? _].
Qed.

(** The pipeline returns no document when no review matches, and otherwise
    exactly one, whose group is the matching reviews. *)
Lemma pipeline_result (t : ObjectId) (docs : list Review) :
  group_stats <$> group_by_tour (match_tour t docs) =
  match match_tour t docs with
  | [] => []
  | ms => [mkStats t (count_of ms) (avg_rating ms)]
  end.
Proof.
  rewrite (group_by_tour_same t) by apply match_tour_Forall.
  by destruct (match_tour t docs).
Qed.

Lemma calcAverageRatings_NoFault (t : ObjectId) (w : World) :
  calcAverageRatings NoFault t w =
  (Ok tt,
   mkWorld (summary_write t (aggregate_summary (match_tour t (reviews w))) (tours w))
           (reviews w) (next_id w) (calls w ++ [t])).
Proof.
  unfold calcAverageRatings, Review_aggregate. unfold_M.
  simpl. rewrite pipeline_result.
  unfold summary_write, aggregate_summary, Tour_findByIdAndUpdate, tour_pre_find.
  simpl.
  destruct (match_tour t (reviews w)) as [|m ms]; simpl;
    (destruct (tours w !! t) as [tr|]; [destruct (secretTour tr)|]); done.
Qed.

Lemma calcAverageRatings_fault (ft : Fault) (t : ObjectId) (w : World) :
  ft <> NoFault ->
  calcAverageRatings ft t w =
  (Err StoreUnavailable,
   mkWorld (tours w) (reviews w) (next_id w) (calls w ++ [t])).
Proof.
  intros Hft.
  unfold calcAverageRatings, Review_aggregate. unfold_M.
  destruct ft; [done| done |].
  simpl. rewrite pipeline_result.
  by destruct (match_tour t (reviews w)).
Qed.

(** Whatever happens, a recompute leaves the reviews alone and adds one
    entry to the trace. *)
Lemma calcAverageRatings_frame (ft : Fault) (t : ObjectId) (w : World) :
  reviews (snd (calcAverageRatings ft t w)) = reviews w /\
  next_id (snd (calcAverageRatings ft t w)) = next_id w /\
  calls (snd (calcAverageRatings ft t w)) = calls w ++ [t].
Proof.
  destruct (decide (ft = NoFault)) as [->|Hft].
  - by rewrite calcAverageRatings_NoFault.
  - by rewrite calcAverageRatings_fault.
Qed.

Lemma summary_write_lookup (t : ObjectId) (u : SummaryUpdate)
    (ts : gmap ObjectId Tour) (tr : Tour) :
  ts !! t = Some tr -> secretTour tr = false ->
  summary_write t u ts !! t = Some (tour_apply u tr).
Proof.
  intros Ht Hs. unfold summary_write. rewrite Ht, Hs.
  apply lookup_insert_eq.
Qed.

Lemma summary_write_other (t id : ObjectId) (u : SummaryUpdate)
    (ts : gmap ObjectId Tour) :
  id <> t -> summary_write t u ts !! id = ts !! id.
Proof.
  intros Hne. unfold summary_write.
  destruct (ts !! t) as [tr|]; [|done].
  destruct (secretTour tr); [done|].
  by apply lookup_insert_ne.
Qed.

Lemma summary_write_secret (t : ObjectId) (u : SummaryUpdate)
    (ts : gmap ObjectId Tour) (tr : Tour) :
  ts !! t = Some tr -> secretTour tr = true -> summary_write t u ts = ts.
Proof. intros Ht Hs. unfold summary_write. by rewrite Ht, Hs. Qed.


Lemma avg_rating_numeric (ms : list Review) :
  numeric_ratings ms <> [] ->
  avg_rating ms = Some (mean (numeric_ratings ms)).
Proof.
  intros H. unfold avg_rating. by destruct (numeric_ratings ms).
Qed.



(** ** Recompute on a tour that has reviews *)




(** ** Recompute on a tour without reviews *)

(** C5, as stated for every tour, fails on a secret tour: the summary
    write is filtered out and the stored values stay as they were. *)
Lemma default_summary_recompute_fails :
  match_tour 2%N (reviews world_secret) = [] /\
  ~ default_summary_recompute world_secret 2%N.
Proof.
  split; [reflexivity|].
  intros (tr' & Hlk & Hq & _).
  vm_compute in Hlk. injection Hlk as <-.
  vm_compute in Hq. discriminate.
Qed.

(** C5 (amended): for a tour that exists, is not secret and has no
    matching review, the recompute succeeds and stores [ratingsQuantity]
    0 and [ratingsAverage] 4.5, the literal of the source; the other
    fields of the tour are carried over. *)
Theorem recompute_without_reviews (w : World) (t : ObjectId) (tr : Tour) :
  tours w !! t = Some tr ->
  secretTour tr = false ->
  match_tour t (reviews w) = [] ->
  let w' := snd (calcAverageRatings NoFault t w) in
  fst (calcAverageRatings NoFault t w) = Ok tt /\
  exists tr',
    tours w' !! t = Some tr' /\
    ratingsQuantity tr' = 0 /\
    ratingsAverage tr' == 4.5 /\
    tr' = tour_apply (mkSummary 0 (Some 4.5)) tr.
Proof.
  intros Ht Hs Hnone w'. subst w'.
  rewrite calcAverageRatings_NoFault, Hnone. simpl.
  split; [done|].
  eexists. split; [by apply summary_write_lookup|].
  split; [reflexivity|]. split; [|reflexivity].
  vm_compute. reflexivity.
Qed.

Lemma recompute_without_reviews_witness :
  exists tr',
    tours (snd (calcAverageRatings NoFault 1%N world0)) !! 1%N = Some tr' /\
    ratingsQuantity tr' = 0 /\ ratingsAverage tr' == 4.5.
Proof.
  destruct (recompute_without_reviews world0 1%N (sample_tour false))
    as (_ & tr' & Hlk & Hq & Ha & _).
  - reflexivity.
  - reflexivity.
  - reflexivity.
  - exists tr'. auto.
Defined.

(** ** The setter on the summary write *)



(** ** Secret tours *)

Lemma calcAverageRatings_secret_lookup
    (ft : Fault) (t T : ObjectId) (w : World) (tr : Tour) :
  tours w !! T = Some tr -> secretTour tr = true ->
  tours (snd (calcAverageRatings ft t w)) !! T = Some tr.
Proof.
  intros HT Hs.
  destruct (decide (ft = NoFault)) as [->|Hft];
    [|by rewrite calcAverageRatings_fault].
  rewrite calcAverageRatings_NoFault. simpl.
  destruct (decide (T = t)) as [->|Hne].
  - by rewrite (summary_write_secret _ _ _ tr).
  - by rewrite summary_write_other.
Qed.

Lemma validate_nil (i : ReviewInput) :
  validate i = [] <->
  required_string (in_review i) = true /\ rating_min_max (in_rating i) = true /\
  required_ref (in_tour i) = true /\ required_ref (in_user i) = true.
Proof.
  unfold validate.
  destruct (required_string (in_review i)), (rating_min_max (in_rating i)),
    (required_ref (in_tour i)), (required_ref (in_user i)); simpl;
    split; try done; intros (? & ? & ? & ?); done.
Qed.

(** The three outcomes of a creation. *)
Lemma Review_create_cases (ft : Fault) (i : ReviewInput) (w : World) :
  (validate i <> [] /\
   Review_create ft i w = (Err (ValidationError (validate i)), w)) \/
  (exists s t u,
     validate i = [] /\
     in_review i = Some s /\ in_tour i = Some t /\ in_user i = Some u /\
     ((index_has (t, u) (reviews w) = true /\
       Review_create ft i w = (Err DuplicateKeyError, w)) \/
      (index_has (t, u) (reviews w) = false /\
       let d := mkReview (next_id w) s (in_rating i) t u in
       Review_create ft i w =
         (Ok d, snd (calcAverageRatings ft t (persisted d w)))))).
Proof.
  destruct (validate i) as [|p ps] eqn:Hv.
  - right. pose proof (proj1 (validate_nil i) Hv) as (Hr & _ & Ht & Hu).
    destruct i as [[s|] q [t|] [u|]]; simpl in *; try done.
    exists s, t, u. do 4 (split; [done|]).
    unfold Review_create. rewrite Hv. simpl.
    unfold_M. simpl.
    destruct (index_has (t, u) (reviews w)); [by left|by right].
  - left. split; [done|].
    unfold Review_create. rewrite Hv.
    by destruct (in_review i), (in_tour i), (in_user i).
Qed.

(** ** The findOneAnd... hooks *)

Lemma with_reviews_id (w : World) : with_reviews (reviews w) w = w.
Proof. by destruct w. Qed.

Lemma findOne_Some_split (c : Review -> bool) (d' : Review) (l : list Review)
    (d : Review) :
  findOne c l = Some d ->
  exists l1 l2,
    l = l1 ++ d :: l2 /\ c d = true /\
    replace_first c d' l = l1 ++ d' :: l2 /\
    remove_first c l = l1 ++ l2.
Proof.
  unfold findOne. induction l as [|x l IH]; simpl; [done|].
  destruct (c x) eqn:Hx.
  - intros [= ->]. by exists [], l.
  - intros Hf. destruct (IH Hf) as (l1 & l2 & -> & Hc & Hrep & Hrem).
    exists (x :: l1), l2. simpl. by rewrite Hrep, Hrem.
Qed.

Lemma findOne_None_remove (c : Review -> bool) (l : list Review) :
  findOne c l = None -> remove_first c l = l.
Proof.
  unfold findOne. induction l as [|x l IH]; simpl; [done|].
  destruct (c x); [done|]. intros Hf. by rewrite IH.
Qed.

Lemma Review_findOneAndDelete_unfold (ft : Fault) (c : Review -> bool) (w : World) :
  Review_findOneAndDelete ft c w =
  match findOne c (reviews w) with
  | Some d =>
    after_recompute ft (tour d) (Some d) (with_reviews (remove_first c (reviews w)) w)
  | None => (Err TypeError, w)
  end.
Proof.
  unfold Review_findOneAndDelete, pre_findOneAnd, exec_findOneAndDelete,
    post_findOneAnd, after_recompute. unfold_M.
  simpl. destruct (findOne c (reviews w)) as [d|] eqn:Hf.
  - fold (with_reviews (remove_first c (reviews w)) w).
    by destruct (calcAverageRatings ft (tour d) _) as [[[]|e] w'].
  - rewrite findOne_None_remove by done. by destruct w.
Qed.

Lemma Review_findOneAndUpdate_unfold (ft : Fault) (c : Review -> bool)
    (u : ReviewUpdate) (w : World) :
  Review_findOneAndUpdate ft c u w =
  match findOne c (reviews w) with
  | Some d =>
    let d' := review_apply u d in
    if bool_decide (index_key d' ≠ index_key d) &&
       index_has (index_key d') (reviews w)
    then (Err DuplicateKeyError, w)
    else after_recompute ft (tour d) (Some d)
           (with_reviews (replace_first c d' (reviews w)) w)
  | None => (Err TypeError, w)
  end.
Proof.
  unfold Review_findOneAndUpdate, pre_findOneAnd, exec_findOneAndUpdate,
    post_findOneAnd, after_recompute. unfold_M.
  simpl. destruct (findOne c (reviews w)) as [d|] eqn:Hf; [|done].
  simpl.
  destruct (bool_decide (index_key (review_apply u d) ≠ index_key d) &&
            index_has (index_key (review_apply u d)) (reviews w)); [done|].
  simpl. fold (with_reviews (replace_first c (review_apply u d) (reviews w)) w).
  by destruct (calcAverageRatings ft (tour d) _) as [[[]|e] w'].
Qed.

Lemma after_recompute_snd {A} (ft : Fault) (t : ObjectId) (a : A) (w : World) :
  snd (after_recompute ft t a w) = snd (calcAverageRatings ft t w).
Proof.
  unfold after_recompute.
  by destruct (calcAverageRatings ft t w) as [[[]|e] w'].
Qed.

(** C2: when the conditions of an update-by-filter or delete-by-filter
    match no review, no recompute is called and nothing is written, but
    the operation does not complete silently: the post hook reads
    [this.r.constructor] on the [null] captured by the pre hook, and the
    operation fails with a TypeError. *)
Theorem findOneAnd_without_match_throws
    (ft : Fault) (c : Review -> bool) (u : ReviewUpdate) (w : World) :
  findOne c (reviews w) = None ->
  Review_findOneAndUpdate ft c u w = (Err TypeError, w) /\
  Review_findOneAndDelete ft c w = (Err TypeError, w) /\
  calls (snd (Review_findOneAndUpdate ft c u w)) = calls w /\
  calls (snd (Review_findOneAndDelete ft c w)) = calls w.
Proof.
  intros Hf.
  rewrite Review_findOneAndUpdate_unfold, Review_findOneAndDelete_unfold, Hf.
  done.
Qed.

Lemma findOneAnd_without_match_throws_witness :
  Review_findOneAndDelete NoFault (by_tour_user 1%N 10%N) world_554
    = (Err TypeError, world_554) /\
  Review_findOneAndUpdate NoFault (by_tour_user 1%N 10%N)
      (mkUpdate None (Some 3) None None) world_554
    = (Err TypeError, world_554).
Proof.
  destruct (findOneAnd_without_match_throws NoFault (by_tour_user 1%N 10%N)
              (mkUpdate None (Some 3) None None) world_554)
    as (Hu & Hd & _); [reflexivity|].
  split; [exact Hd|exact Hu].
Defined.

(** C3: when the conditions match a review [d], that review is the one
    the pre hook captures in the state before the mutation; once the
    mutation has gone through, the post hook runs the recompute on
    [tour d], the tour of the captured review, in the state after the
    mutation, also when the update moved the review to another tour. The
    trace of recompute calls grows by exactly [tour d]. *)
Theorem capture_before_mutation
    (ft : Fault) (c : Review -> bool) (u : ReviewUpdate) (w : World) (d : Review) :
  findOne c (reviews w) = Some d ->
  let d' := review_apply u d in
  (bool_decide (index_key d' ≠ index_key d) &&
     index_has (index_key d') (reviews w) = false ->
   Review_findOneAndUpdate ft c u w =
     after_recompute ft (tour d) (Some d)
       (with_reviews (replace_first c d' (reviews w)) w) /\
   calls (snd (Review_findOneAndUpdate ft c u w)) = calls w ++ [tour d]) /\
  Review_findOneAndDelete ft c w =
    after_recompute ft (tour d) (Some d)
      (with_reviews (remove_first c (reviews w)) w) /\
  calls (snd (Review_findOneAndDelete ft c w)) = calls w ++ [tour d].
Proof.
  intros Hf d'.
  rewrite Review_findOneAndUpdate_unfold, Review_findOneAndDelete_unfold, Hf.
  cbv zeta. fold d'.
  split; [intros Hok; rewrite Hok; split; [done|]|split; [done|]];
    rewrite after_recompute_snd;
    match goal with
    | |- calls (snd (calcAverageRatings _ _ ?w0)) = _ =>
      exact (proj2 (proj2 (calcAverageRatings_frame ft (tour d) w0)))
    end.
Qed.

Lemma capture_before_mutation_witness :
  let c := by_tour_user 1%N 9%N in
  let w' := snd (Review_findOneAndUpdate NoFault c
                   (mkUpdate None None (Some 3%N) None) world_554) in
  calls w' = [1%N] /\ findOne c (reviews w') = None.
Proof.
  intros c w'.
  destruct (capture_before_mutation NoFault c
              (mkUpdate None None (Some 3%N) None) world_554
              (mkReview 102%N "good" (Some 4) 1%N 9%N))
    as ((_ & Hcalls) & _); [reflexivity|reflexivity|].
  split; [exact Hcalls|reflexivity].
Defined.

(** ** The unique index *)

Lemma index_has_false (k : ObjectId * ObjectId) (docs : list Review) :
  index_has k docs = false <-> k ∉ index_key <$> docs.
Proof. unfold index_has. apply bool_decide_eq_false. Qed.









(** ** Creation *)

Lemma Review_create_failure (ft : Fault) (i : ReviewInput) (w : World)
    (e : Error) (w' : World) :
  Review_create ft i w = (Err e, w') -> w' = w.
Proof.
  destruct (Review_create_cases ft i w)
    as [(_ & ->)|(s & t & u & _ & _ & _ & _ & [(_ & ->)|(_ & ->)])];
    cbv zeta; congruence.
Qed.

Lemma findOne_app_new (c : Review -> bool) (docs : list Review) (d : Review) :
  (forall r, r ∈ docs -> c r = false) -> c d = true ->
  findOne c (docs ++ [d]) = Some d.
Proof.
  unfold findOne. intros Hold Hd.
  induction docs as [|x docs IH]; simpl.
  - by rewrite Hd.
  - rewrite (Hold x) by apply list_elem_of_here.
    apply IH. intros r Hr. apply Hold. by apply list_elem_of_further.
Qed.

Lemma by_tour_user_key (t u : ObjectId) (r : Review) :
  by_tour_user t u r = true <-> index_key r = (t, u).
Proof.
  unfold by_tour_user, index_key. rewrite andb_true_iff.
  rewrite !bool_decide_eq_true. split.
  - by intros [-> ->].
  - by intros [= -> ->].
Qed.

Lemma Review_create_ok
    (ft : Fault) (s : string) (q : option Number) (t u : ObjectId) (w : World) :
  s <> ""%string ->
  rating_min_max q = true ->
  index_has (t, u) (reviews w) = false ->
  let d := mkReview (next_id w) s q t u in
  validate (mkInput (Some s) q (Some t) (Some u)) = [] /\
  Review_create ft (mkInput (Some s) q (Some t) (Some u)) w =
    (Ok d, snd (calcAverageRatings ft t (persisted d w))) /\
  reviews (snd (calcAverageRatings ft t (persisted d w))) = reviews w ++ [d].
Proof.
  intros Hs Hq Hfree d.
  set (i := mkInput (Some s) q (Some t) (Some u)).
  assert (Hv : validate i = []).
  { apply validate_nil. simpl. repeat split; try done.
    apply negb_true_iff. by apply String.eqb_neq. }
  split; [done|]. split.
  - destruct (Review_create_cases ft i w)
      as [(Hbad & _)|(s' & t' & u' & _ & Hs' & Ht' & Hu' & Hcase)]; [done|].
    simpl in Hs', Ht', Hu'.
    injection Hs' as <-. injection Ht' as <-. injection Hu' as <-.
    destruct Hcase as [(Htaken & _)|(_ & Hok)]; [congruence|exact Hok].
  - by destruct (calcAverageRatings_frame ft t (persisted d w)) as (-> & _).
Qed.

(** C6: a creation that validates and meets no duplicate succeeds
    whatever becomes of the recompute. The recompute is started by the
    post-save hook in the state that already holds the new review, and a
    creation that fails starts none. When the recompute fails, the review
    is still stored and found by a query on its tour and user, and the
    tours, hence the summary, are as they were before. *)
Theorem create_survives_recompute_failure
    (ft : Fault) (s : string) (q : option Number) (t u : ObjectId) (w : World) :
  s <> ""%string ->
  rating_min_max q = true ->
  index_has (t, u) (reviews w) = false ->
  let i := mkInput (Some s) q (Some t) (Some u) in
  let d := mkReview (next_id w) s q t u in
  let w' := snd (Review_create ft i w) in
  fst (Review_create ft i w) = Ok d /\
  w' = snd (calcAverageRatings ft (tour d) (persisted d w)) /\
  reviews w' = reviews w ++ [d] /\
  findOne (by_tour_user t u) (reviews w') = Some d /\
  calls w' = calls w ++ [t] /\
  (ft <> NoFault ->
   fst (calcAverageRatings ft (tour d) (persisted d w)) = Err StoreUnavailable /\
   tours w' = tours w) /\
  (forall i0 e w0, Review_create ft i0 w = (Err e, w0) -> calls w0 = calls w).
Proof.
  intros Hs Hq Hfree i d w'.
  destruct (Review_create_ok ft s q t u w Hs Hq Hfree) as (_ & Hc & _).
  fold i d in Hc.
  subst w'. rewrite Hc. simpl.
  destruct (calcAverageRatings_frame ft t (persisted d w)) as (Hrev & _ & Hcalls).
  split; [done|]. split; [done|]. split; [done|]. split.
  - rewrite Hrev. simpl. apply findOne_app_new.
    + intros r Hr. apply not_true_is_false. intros Hk.
      apply by_tour_user_key in Hk. apply index_has_false in Hfree.
      apply Hfree. rewrite <- Hk. by apply list_elem_of_fmap_2.
    + by apply by_tour_user_key.
  - split; [done|]. split.
    + intros Hft. by rewrite calcAverageRatings_fault.
    + intros i0 e w0 Hfail. by rewrite (Review_create_failure _ _ _ _ _ Hfail).
Qed.

Lemma create_survives_recompute_failure_witness :
  let r := Review_create AggregateFails (input "amazing" 5 1%N 7%N) world0 in
  fst r = Ok (mkReview 100%N "amazing" (Some 5) 1%N 7%N) /\
  findOne (by_tour_user 1%N 7%N) (reviews (snd r))
    = Some (mkReview 100%N "amazing" (Some 5) 1%N 7%N) /\
  tours (snd r) = tours world0.
Proof.
  intros r.
  destruct (create_survives_recompute_failure AggregateFails "amazing" (Some 5)
              1%N 7%N world0) as (Hok & _ & _ & Hfind & _ & Hfail & _).
  - discriminate.
  - reflexivity.
  - reflexivity.
  - split; [exact Hok|]. split; [exact Hfind|].
    apply Hfail. discriminate.
Defined.

(** ** Validation *)





(** ** Reviews without a rating *)

Lemma match_tour_app (t : ObjectId) (l1 l2 : list Review) :
  match_tour t (l1 ++ l2) = match_tour t l1 ++ match_tour t l2.
Proof. unfold match_tour. apply filter_app. Qed.


Lemma match_tour_own (d : Review) : match_tour (tour d) [d] = [d].
Proof. unfold match_tour. by rewrite filter_cons_True. Qed.




(** ** Secret tours and review mutations *)

Lemma run_secret_lookup (ft : Fault) (o : Op) (w : World) (T : ObjectId) (tr : Tour) :
  tours w !! T = Some tr -> secretTour tr = true ->
  tours (run ft o w) !! T = Some tr.
Proof.
  intros HT Hs. destruct o as [i|c u|c]; simpl.
  - destruct (Review_create_cases ft i w)
      as [(_ & ->)|(s & t & u & _ & _ & _ & _ & [(_ & ->)|(_ & ->)])];
      [done|done|].
    simpl. by apply calcAverageRatings_secret_lookup.
  - rewrite Review_findOneAndUpdate_unfold.
    destruct (findOne c (reviews w)) as [d|]; [|done].
    cbv zeta.
    destruct (bool_decide _ && index_has _ _); [done|].
    rewrite after_recompute_snd. by apply calcAverageRatings_secret_lookup.
  - rewrite Review_findOneAndDelete_unfold.
    destruct (findOne c (reviews w)) as [d|]; [|done].
    rewrite after_recompute_snd. by apply calcAverageRatings_secret_lookup.
Qed.

(** C10: for a tour with [secretTour = true], the summary write of the
    recompute matches nothing, because the [/^find/] middleware of the
    tour schema adds [secretTour: { $ne: true }] to its conditions: the
    recompute completes without error and leaves every tour as it was.
    Hence no review creation, update or deletion changes the secret tour:
    its [ratingsQuantity] and [ratingsAverage] keep their prior values. *)
Theorem secret_tour_summary_never_updated
    (ft : Fault) (o : Op) (w : World) (T : ObjectId) (tr : Tour) :
  tours w !! T = Some tr ->
  secretTour tr = true ->
  tour_pre_find (fun _ => true) tr = false /\
  calcAverageRatings NoFault T w =
    (Ok tt, mkWorld (tours w) (reviews w) (next_id w) (calls w ++ [T])) /\
  tours (snd (calcAverageRatings ft T w)) = tours w /\
  tours (run ft o w) !! T = Some tr.
Proof.
  intros HT Hs. split; [unfold tour_pre_find; by rewrite Hs|].
  split; [by rewrite calcAverageRatings_NoFault, (summary_write_secret _ _ _ tr)|].
  split; [|by apply run_secret_lookup].
  destruct (decide (ft = NoFault)) as [->|Hft].
  - rewrite calcAverageRatings_NoFault. simpl.
    by apply (summary_write_secret _ _ _ tr).
  - by rewrite calcAverageRatings_fault.
Qed.

Lemma secret_tour_summary_never_updated_witness :
  let w := run NoFault (OpCreate (input "hidden gem" 5 2%N 7%N)) world_secret in
  length (match_tour 2%N (reviews w)) = 1%nat /\
  tours w !! 2%N = Some stale_secret_tour.
Proof.
  intros w.
  destruct (secret_tour_summary_never_updated NoFault
              (OpCreate (input "hidden gem" 5 2%N 7%N)) world_secret 2%N
              stale_secret_tour) as (_ & _ & _ & Hkeep).
  - reflexivity.
  - reflexivity.
  - split; [reflexivity|exact Hkeep].
Defined.

(** ** What a review mutation does to the tours *)

Lemma calcAverageRatings_tours (ft : Fault) (t : ObjectId) (w : World) :
  tours (snd (calcAverageRatings ft t w)) =
  match ft with
  | NoFault =>
    summary_write t (aggregate_summary (match_tour t (reviews w))) (tours w)
  | _ => tours w
  end.
Proof.
  destruct ft; [by rewrite calcAverageRatings_NoFault|..];
    by rewrite calcAverageRatings_fault.
Qed.

Lemma calcAverageRatings_lookup_other (ft : Fault) (t id : ObjectId) (w : World) :
  id <> t -> tours (snd (calcAverageRatings ft t w)) !! id = tours w !! id.
Proof.
  intros Hne. rewrite calcAverageRatings_tours.
  destruct ft; [by apply summary_write_other|done|done].
Qed.

(** Every mutation either leaves the store alone or ends in one recompute,
    on its target, started from a store with the same tours and trace. *)
Lemma run_effect (ft : Fault) (o : Op) (w : World) :
  run ft o w = w \/
  exists t docs n,
    recompute_target o w = Some t /\
    run ft o w =
      snd (calcAverageRatings ft t (mkWorld (tours w) docs n (calls w))).
Proof.
  destruct o as [i|c u|c]; simpl.
  - destruct (Review_create_cases ft i w)
      as [(_ & ->)|(s & t & u & _ & _ & Ht & _ & [(_ & ->)|(_ & ->)])];
      [by left|by left|].
    right. by eexists t, _, _.
  - rewrite Review_findOneAndUpdate_unfold.
    destruct (findOne c (reviews w)) as [d|]; [|by left].
    cbv zeta. destruct (bool_decide _ && index_has _ _); [by left|].
    right. rewrite after_recompute_snd. by eexists (tour d), _, _.
  - rewrite Review_findOneAndDelete_unfold.
    destruct (findOne c (reviews w)) as [d|]; [|by left].
    right. rewrite after_recompute_snd. by eexists (tour d), _, _.
Qed.

(** X1: a review mutation touches no tour but its target, the tour of the
    created review or of the review captured by the pre hook: every other
    tour record is exactly as it was, whatever the outcome. *)
Theorem mutation_changes_only_its_target
    (ft : Fault) (o : Op) (w : World) (id : ObjectId) :
  recompute_target o w <> Some id ->
  tours (run ft o w) !! id = tours w !! id.
Proof.
  intros Hid.
  destruct (run_effect ft o w) as [->|(t & docs & n & Ht & ->)]; [done|].
  rewrite calcAverageRatings_lookup_other by congruence. done.
Qed.

Lemma mutation_changes_only_its_target_witness :
  let o := OpDelete (by_tour_user 1%N 9%N) in
  let w := mkWorld (<[5%N := sample_tour false]> (tours world_554))
                   (reviews world_554) 103%N [] in
  tours (run NoFault o w) !! 5%N = Some (sample_tour false).
Proof.
  intros o w.
  refine (eq_trans (mutation_changes_only_its_target NoFault o w 5%N _) _).
  - vm_compute. discriminate.
  - reflexivity.
Defined.

Lemma summary_write_same_but_summary (t id : ObjectId) (u : SummaryUpdate)
    (ts : gmap ObjectId Tour) :
  option_Forall2 same_but_summary (ts !! id) (summary_write t u ts !! id).
Proof.
  assert (Hrefl : forall o : option Tour, option_Forall2 same_but_summary o o).
  { intros [tr|]; constructor. by repeat split. }
  unfold summary_write.
  destruct (ts !! t) as [tr|] eqn:Ht; [|apply Hrefl].
  destruct (secretTour tr); [apply Hrefl|].
  destruct (decide (id = t)) as [->|Hne].
  - rewrite lookup_insert_eq, Ht. constructor. by repeat split.
  - rewrite lookup_insert_ne by done. apply Hrefl.
Qed.

Lemma run_same_but_summary (ft : Fault) (o : Op) (w : World) (id : ObjectId) :
  option_Forall2 same_but_summary (tours w !! id) (tours (run ft o w) !! id).
Proof.
  destruct (run_effect ft o w) as [->|(t & docs & n & _ & ->)].
  - destruct (tours w !! id); constructor. by repeat split.
  - rewrite calcAverageRatings_tours. simpl.
    destruct ft; [apply summary_write_same_but_summary|..];
      destruct (tours w !! id); constructor; by repeat split.
Qed.

(** X2: a review mutation never creates or removes a tour, and on the
    tours it finds it changes nothing but [ratingsQuantity] and
    [ratingsAverage]: name, duration, group size, difficulty, price and
    the secret flag are carried over. *)
Theorem mutation_keeps_tours_but_summary
    (ft : Fault) (o : Op) (w : World) (id : ObjectId) :
  option_Forall2 same_but_summary (tours w !! id) (tours (run ft o w) !! id) /\
  dom (tours (run ft o w)) = dom (tours w).
Proof.
  split; [apply run_same_but_summary|].
  apply set_eq. intros k. rewrite !elem_of_dom.
  pose proof (run_same_but_summary ft o w k) as Hone.
  inversion Hone; split; intros [? ?]; by eauto.
Qed.

(** ** Recompute after recompute *)

Lemma summary_write_overwrite (t : ObjectId) (u1 u2 : SummaryUpdate)
    (ts : gmap ObjectId Tour) :
  summary_write t u2 (summary_write t u1 ts) = summary_write t u2 ts.
Proof.
  unfold summary_write at 2 3.
  destruct (ts !! t) as [tr|] eqn:Ht.
  - destruct (secretTour tr) eqn:Hs.
    + unfold summary_write. by rewrite Ht, Hs.
    + unfold summary_write. rewrite lookup_insert_eq. simpl. rewrite Hs.
      by rewrite insert_insert_eq.
  - unfold summary_write. by rewrite Ht.
Qed.

(** X3: a recompute overwrites, it does not accumulate: running it again
    on the same tour with the reviews unchanged leaves the tours as the
    first run left them, and only the trace records the second call. *)
Theorem recompute_idempotent (t : ObjectId) (w : World) :
  let w1 := snd (calcAverageRatings NoFault t w) in
  calcAverageRatings NoFault t w1 =
    (Ok tt, mkWorld (tours w1) (reviews w1) (next_id w1) (calls w1 ++ [t])) /\
  reviews w1 = reviews w.
Proof.
  intros w1. subst w1.
  rewrite !calcAverageRatings_NoFault. simpl.
  by rewrite summary_write_overwrite.
Qed.

(** ** Creation against a missing tour, and creation undone *)

(** X4: the tour reference of a review is not checked against the tours:
    a well-formed review for a tour id that does not exist is stored, the
    recompute that follows finds no tour to write to and does so without
    error, and the tours stay as they were. *)
Theorem create_for_missing_tour
    (ft : Fault) (s : string) (q : option Number) (t u : ObjectId) (w : World) :
  s <> ""%string ->
  rating_min_max q = true ->
  index_has (t, u) (reviews w) = false ->
  tours w !! t = None ->
  let d := mkReview (next_id w) s q t u in
  let r := Review_create ft (mkInput (Some s) q (Some t) (Some u)) w in
  fst r = Ok d /\
  reviews (snd r) = reviews w ++ [d] /\
  tours (snd r) = tours w /\
  calcAverageRatings NoFault t (persisted d w) =
    (Ok tt, mkWorld (tours w) (reviews w ++ [d]) (N.succ (next_id w))
                    (calls w ++ [t])).
Proof.
  intros Hs Hq Hfree Hnone d r. subst r.
  destruct (Review_create_ok ft s q t u w Hs Hq Hfree) as (_ & Hc & Hrev).
  fold d in Hc, Hrev. rewrite Hc. simpl.
  split; [done|]. split; [done|].
  assert (Hsw : forall su, summary_write t su (tours w) = tours w)
    by (intros su; unfold summary_write; by rewrite Hnone).
  split.
  - rewrite calcAverageRatings_tours. simpl. by destruct ft; rewrite ?Hsw.
  - rewrite calcAverageRatings_NoFault. simpl. by rewrite Hsw.
Qed.

Lemma create_for_missing_tour_witness :
  let r := Review_create NoFault (input "nowhere" 4 9%N 7%N) world0 in
  fst r = Ok (mkReview 100%N "nowhere" (Some 4) 9%N 7%N) /\
  tours (snd r) = tours world0.
Proof.
  intros r.
  destruct (create_for_missing_tour NoFault "nowhere" (Some 4) 9%N 7%N world0)
    as (Hok & _ & Htours & _).
  - discriminate.
  - reflexivity.
  - reflexivity.
  - reflexivity.
  - split; [exact Hok|exact Htours].
Defined.





(** ** Failures of update and delete *)

(** X6: unlike the post-save hook, the post hook of update and delete
    awaits the recompute. When the recompute fails, the operation reports
    the failure although the mutation has gone through and stays: the
    review is updated or gone, the tours are unchanged, and the summary
    is stale. *)
Theorem awaited_recompute_failure_surfaces
    (ft : Fault) (c : Review -> bool) (u : ReviewUpdate) (w : World) (d : Review) :
  ft <> NoFault ->
  findOne c (reviews w) = Some d ->
  Review_findOneAndDelete ft c w =
    (Err StoreUnavailable,
     mkWorld (tours w) (remove_first c (reviews w)) (next_id w)
             (calls w ++ [tour d])) /\
  (bool_decide (index_key (review_apply u d) ≠ index_key d) &&
     index_has (index_key (review_apply u d)) (reviews w) = false ->
   Review_findOneAndUpdate ft c u w =
     (Err StoreUnavailable,
      mkWorld (tours w) (replace_first c (review_apply u d) (reviews w))
              (next_id w) (calls w ++ [tour d]))).
Proof.
  intros Hft Hf.
  rewrite Review_findOneAndDelete_unfold, Review_findOneAndUpdate_unfold, Hf.
  cbv zeta. unfold after_recompute.
  split; [|intros ->]; by rewrite calcAverageRatings_fault.
Qed.

Lemma awaited_recompute_failure_surfaces_witness :
  let r := Review_findOneAndDelete UpdateFails (by_tour_user 1%N 9%N) world_554 in
  fst r = Err StoreUnavailable /\
  length (reviews (snd r)) = 2%nat /\
  tours (snd r) = tours world_554.
Proof.
  intros r.
  destruct (awaited_recompute_failure_surfaces UpdateFails (by_tour_user 1%N 9%N)
              (mkUpdate None None None None) world_554
              (mkReview 102%N "good" (Some 4) 1%N 9%N)) as (Hdel & _).
  - discriminate.
  - reflexivity.
  - subst r. rewrite Hdel. repeat split.
Defined.


(** ** The setter, the mean and the range of the stored average *)

Lemma Math_round_integer (z : Z) : Math_round (inject_Z z) = z.
Proof.
  unfold Math_round, Qfloor, Qplus, inject_Z. simpl.
  rewrite Z.mul_1_r.
  replace (z * 2 + 1)%Z with (1 + z * 2)%Z by lia.
  rewrite Z.div_add by lia. reflexivity.
Qed.


Lemma Math_round_mono (x y : Q) : x <= y -> (Math_round x <= Math_round y)%Z.
Proof. intros H. unfold Math_round. apply Qfloor_resp_le. lra. Qed.


Lemma ratingsAverage_set_range (v : Number) :
  1 <= v -> v <= 5 ->
  1 <= ratingsAverage_set (Some v) /\ ratingsAverage_set (Some v) <= 5.
Proof.
  intros H1 H5. unfold ratingsAverage_set. simpl.
  assert (Hlo : (10 <= Math_round (v * 10)%Q)%Z).
  { assert (Hm : inject_Z 10 <= v * 10) by (change (inject_Z 10) with 10; lra).
    apply Math_round_mono in Hm. by rewrite Math_round_integer in Hm. }
  assert (Hhi : (Math_round (v * 10)%Q <= 50)%Z).
  { assert (Hm : v * 10 <= inject_Z 50) by (change (inject_Z 50) with 50; lra).
    apply Math_round_mono in Hm. by rewrite Math_round_integer in Hm. }
  rewrite Zle_Qle in Hlo, Hhi.
  change (inject_Z 10) with 10 in Hlo. change (inject_Z 50) with 50 in Hhi.
  split.
  - apply Qle_shift_div_l; [reflexivity|]. lra.
  - apply Qle_shift_div_r; [reflexivity|]. lra.
Qed.

Lemma count_of_cons {A} (x : A) (l : list A) :
  count_of (x :: l) == 1 + count_of l.
Proof.
  unfold count_of. simpl length. rewrite Nat2Z.inj_succ.
  unfold Z.succ. rewrite inject_Z_plus. change (inject_Z 1) with 1. lra.
Qed.

Lemma count_of_nonneg {A} (l : list A) : 0 <= count_of l.
Proof.
  unfold count_of. change 0 with (inject_Z 0). rewrite <- Zle_Qle. lia.
Qed.

Lemma Qsum_bounds (a b : Number) (l : list Number) :
  Forall (fun x => a <= x /\ x <= b) l ->
  a * count_of l <= Qsum l /\ Qsum l <= b * count_of l.
Proof.
  induction 1 as [|x l [Hax Hxb] _ [IHa IHb]].
  - unfold count_of. simpl length.
    change (inject_Z (Z.of_nat 0)) with 0. simpl Qsum. split; lra.
  - simpl Qsum. rewrite count_of_cons. split; lra.
Qed.

Lemma mean_bounds (a b : Number) (l : list Number) :
  l <> [] ->
  Forall (fun x => a <= x /\ x <= b) l ->
  a <= mean l /\ mean l <= b.
Proof.
  intros Hne Hall. destruct (Qsum_bounds a b l Hall) as [Ha Hb].
  assert (Hpos : 0 < count_of l).
  { destruct l as [|x l]; [done|]. rewrite count_of_cons.
    pose proof (count_of_nonneg l). lra. }
  unfold mean. split.
  - by apply Qle_shift_div_l.
  - apply Qle_shift_div_r; [done|]. lra.
Qed.

Lemma numeric_ratings_valid (ms : list Review) :
  Forall (fun r => rating_min_max (rating r) = true) ms ->
  Forall (fun x => 1 <= x /\ x <= 5) (numeric_ratings ms).
Proof.
  unfold numeric_ratings. induction 1 as [|r ms Hr _ IH]; [constructor|].
  change (omap rating (r :: ms))
    with (match rating r with
          | Some q => q :: omap rating ms
          | None => omap rating ms
          end).
  destruct (rating r) as [q|] eqn:Hq; [|done].
  constructor; [|done].
  simpl in Hr. apply andb_true_iff in Hr as [H1 H5].
  by apply Qle_bool_iff in H1, H5.
Qed.

(** X9: when every review of a tour that exists and is not secret passes
    the rating validator of the review schema, and either the tour has no
    review or at least one has a rating, the average a recompute stores
    lies in [1,5], the range the tour schema asks of [ratingsAverage],
    although the summary write runs no validator. *)
Theorem stored_average_in_range (w : World) (t : ObjectId) (tr : Tour) :
  tours w !! t = Some tr ->
  secretTour tr = false ->
  Forall (fun r => rating_min_max (rating r) = true) (match_tour t (reviews w)) ->
  match_tour t (reviews w) = [] \/ numeric_ratings (match_tour t (reviews w)) <> [] ->
  exists tr',
    tours (snd (calcAverageRatings NoFault t w)) !! t = Some tr' /\
    1 <= ratingsAverage tr' /\ ratingsAverage tr' <= 5.
Proof.
  intros Ht Hs Hvalid Hcase.
  rewrite calcAverageRatings_NoFault. simpl.
  eexists. split; [by apply summary_write_lookup|]. simpl.
  destruct Hcase as [Hnil|Hnum].
  - rewrite Hnil. simpl. apply ratingsAverage_set_range; lra.
  - assert (Hv : upd_ratingsAverage (aggregate_summary (match_tour t (reviews w)))
                 = Some (mean (numeric_ratings (match_tour t (reviews w))))).
    { rewrite <- avg_rating_numeric by done.
      destruct (match_tour t (reviews w)); [done|reflexivity]. }
    rewrite Hv.
    apply ratingsAverage_set_range;
      apply (mean_bounds 1 5); try done; by apply numeric_ratings_valid.
Qed.

Lemma stored_average_in_range_witness :
  exists tr',
    tours (snd (calcAverageRatings NoFault 1%N world_554)) !! 1%N = Some tr' /\
    1 <= ratingsAverage tr' /\ ratingsAverage tr' <= 5.
Proof.
  apply (stored_average_in_range world_554 1%N (sample_tour false)).
  - reflexivity.
  - reflexivity.
  - repeat constructor.
  - right. vm_compute. discriminate.
Defined.

(** ** The shape of the aggregation result *)

(** X10: the pipeline of [calcAverageRatings] returns at most one
    document: none when no review is on the tour, and otherwise exactly
    one, whose [_id] is the tour asked for, whose [nRating] is the number
    of its reviews (at least 1) and whose [avgRating] is [null] exactly
    when none of them has a rating. So [stats[0]] is the whole result. *)
Theorem aggregate_result_shape (tourId : ObjectId) (w : World) :
  exists stats,
    Review_aggregate NoFault tourId w = (Ok stats, w) /\
    (length stats <= 1)%nat /\
    (stats = [] <-> match_tour tourId (reviews w) = []) /\
    (forall s, s ∈ stats ->
       stats_id s = tourId /\
       nRating s = count_of (match_tour tourId (reviews w)) /\
       1 <= nRating s /\
       (avgRating s = None <->
        Forall (fun r => rating r = None) (match_tour tourId (reviews w)))).
Proof.
  eexists. split; [reflexivity|].
  rewrite pipeline_result.
  destruct (match_tour tourId (reviews w)) as [|m ms] eqn:Hm.
  - split; [simpl; lia|]. split; [done|]. intros s Hs. by apply elem_of_nil in Hs.
  - split; [simpl; lia|]. split; [done|].
    intros s Hs. apply list_elem_of_singleton in Hs as ->. simpl.
    split; [done|]. split; [done|]. split.
    + rewrite count_of_cons. pose proof (count_of_nonneg ms). lra.
    + unfold avg_rating.
      assert (Hnum : numeric_ratings (m :: ms) = [] <->
                     Forall (fun r => rating r = None) (m :: ms)).
      { unfold numeric_ratings. generalize (m :: ms). intros l.
        induction l as [|r l IH]; [done|].
        change (omap rating (r :: l))
          with (match rating r with
                | Some q => q :: omap rating l
                | None => omap rating l
                end).
        destruct (rating r) as [q|] eqn:Hq.
        - split; [done|]. intros HF. apply Forall_cons in HF as [HF _]. congruence.
        - rewrite IH. split; [by constructor|]. intros HF. by apply Forall_cons in HF as [_ HF]. }
      rewrite <- Hnum. by destruct (numeric_ratings (m :: ms)).
Qed.

(** ** Consistency of the summaries *)

Lemma match_tour_other (id : ObjectId) (d : Review) :
  tour d <> id -> match_tour id [d] = [].
Proof. intros Hne. unfold match_tour. by rewrite filter_cons_False. Qed.

Lemma match_tour_middle_other (id : ObjectId) (l1 l2 : list Review) (d : Review) :
  tour d <> id -> match_tour id (l1 ++ d :: l2) = match_tour id (l1 ++ l2).
Proof.
  intros Hne. rewrite !match_tour_app. f_equal.
  change (d :: l2) with ([d] ++ l2).
  by rewrite match_tour_app, match_tour_other.
Qed.






(** X12: an update that moves a review to another tour recomputes only
    the tour the review came from. The record of the destination tour is
    untouched while it has one review more, so a [ratingsQuantity] that
    was right before the move is one short after it. *)
Theorem move_leaves_destination_stale
    (ft : Fault) (c : Review -> bool) (u : ReviewUpdate) (w : World)
    (d : Review) (t2 : ObjectId) :
  findOne c (reviews w) = Some d ->
  set_tour u = Some t2 ->
  t2 <> tour d ->
  index_has (index_key (review_apply u d)) (reviews w) = false ->
  let w' := run ft (OpUpdate c u) w in
  tours w' !! t2 = tours w !! t2 /\
  length (match_tour t2 (reviews w')) = S (length (match_tour t2 (reviews w))) /\
  (forall tr2, tours w !! t2 = Some tr2 ->
     ratingsQuantity tr2 == count_of (match_tour t2 (reviews w)) ->
     ~ ratingsQuantity tr2 == count_of (match_tour t2 (reviews w'))).
Proof.
  intros Hf Hset Hne Hfree w'.
  assert (Hw' : w' = snd (calcAverageRatings ft (tour d)
            (with_reviews (replace_first c (review_apply u d) (reviews w)) w))).
  { subst w'. simpl. rewrite Review_findOneAndUpdate_unfold, Hf. cbv zeta.
    rewrite Hfree, andb_false_r. apply after_recompute_snd. }
  assert (Hlen : length (match_tour t2 (reviews w'))
                 = S (length (match_tour t2 (reviews w)))).
  { rewrite Hw'.
    destruct (calcAverageRatings_frame ft (tour d)
      (with_reviews (replace_first c (review_apply u d) (reviews w)) w))
      as (-> & _).
    simpl.
    destruct (findOne_Some_split c (review_apply u d) _ _ Hf)
      as (l1 & l2 & Hl & _ & -> & _).
    rewrite Hl, (match_tour_middle_other t2 l1 l2 d) by done.
    rewrite !match_tour_app, !length_app.
    change (review_apply u d :: l2) with ([review_apply u d] ++ l2).
    rewrite match_tour_app, length_app.
    assert (Hd' : tour (review_apply u d) = t2)
      by (unfold review_apply; simpl; by rewrite Hset).
    rewrite <- Hd', match_tour_own. simpl. lia. }
  split; [|split; [exact Hlen|]].
  - rewrite Hw'. by rewrite calcAverageRatings_lookup_other.
  - intros tr2 _ Hq Hq'. rewrite Hq in Hq'.
    unfold count_of in Hq'. rewrite Hlen in Hq'.
    apply (proj1 (inject_Z_injective _ _)) in Hq'. lia.
Qed.

Lemma move_leaves_destination_stale_witness :
  let w := mkWorld (<[3%N := sample_tour false]> (tours world_554))
                   (reviews world_554) 103%N [] in
  let w' := run NoFault (OpUpdate (by_tour_user 1%N 9%N)
                           (mkUpdate None None (Some 3%N) None)) w in
  tours w' !! 3%N = Some (sample_tour false) /\
  length (match_tour 3%N (reviews w')) = 1%nat.
Proof.
  intros w w'.
  destruct (move_leaves_destination_stale NoFault (by_tour_user 1%N 9%N)
              (mkUpdate None None (Some 3%N) None) w
              (mkReview 102%N "good" (Some 4) 1%N 9%N) 3%N)
    as (Htours & Hlen & _).
  - reflexivity.
  - reflexivity.
  - discriminate.
  - reflexivity.
  - split; [exact Htours|exact Hlen].
Defined.

(** ** Queries on tours *)


(** ** Tokens and password changes *)

Lemma parseInt10_seconds (ms : Z) :
  (0 <= ms)%Z -> User.parseInt10 (inject_Z ms / 1000) = (ms / 1000)%Z.
Proof.
  intros Hms. unfold User.parseInt10. simpl. rewrite Z.mul_1_r.
  apply Z.quot_div_nonneg; lia.
Qed.

(** X14: for a user whose password was changed at millisecond [c] (not
    before the epoch), [changedPasswordAfter] reports a token stamped
    with second [iat] as older than the change exactly when that whole
    second had ended by [c], that is when [1000 * (iat + 1) <= c]; a
    token stamped with the second of the change itself is not reported. *)
Theorem changedPasswordAfter_threshold (this : User.Doc) (c iat : Z) :
  User.passwordChangedAt this = Some c ->
  (0 <= c)%Z ->
  (User.changedPasswordAfter this iat = true <-> (1000 * (iat + 1) <= c)%Z) /\
  User.changedPasswordAfter this (c / 1000) = false.
Proof.
  intros Hc Hpos. unfold User.changedPasswordAfter. rewrite Hc. cbv zeta.
  rewrite parseInt10_seconds by done.
  pose proof (Z.div_mod c 1000 ltac:(lia)) as Hdm.
  pose proof (Z.mod_pos_bound c 1000 ltac:(lia)) as Hmod.
  split.
  - rewrite Z.ltb_lt. lia.
  - apply Z.ltb_ge. lia.
Qed.

Lemma changedPasswordAfter_threshold_witness :
  let u := User.mkDoc "Ada" "ada@example.com" "default.jpg" "user" "hash" None
             (Some 5500%Z) None None true false false in
  User.changedPasswordAfter u 4 = true /\ User.changedPasswordAfter u 5 = false.
Proof.
  intros u.
  destruct (changedPasswordAfter_threshold u 5500 4) as (Hiff & Hsame);
    [reflexivity|lia|].
  split; [apply Hiff; lia|exact Hsame].
Defined.

(** X15: when an existing user saves a changed password at time [now],
    the save hook stamps the change one second early. A token stamped at
    or after [now] is then never reported as older than the change, and a
    token stamped two seconds or more before [now] always is. *)
Theorem password_change_and_tokens (this : User.Doc) (now : Z) :
  User.isModified_password this = true ->
  User.isNew this = false ->
  (1000 <= now)%Z ->
  let this' := User.pre_save_passwordChangedAt now this in
  User.passwordChangedAt this' = Some (now - 1000)%Z /\
  (forall t, (now <= t)%Z -> User.changedPasswordAfter this' (t / 1000) = false) /\
  (forall t, (t + 2000 <= now)%Z ->
     User.changedPasswordAfter this' (t / 1000) = true).
Proof.
  intros Hmod Hnew Hnow this'.
  assert (Hc : User.passwordChangedAt this' = Some (now - 1000)%Z).
  { subst this'. unfold User.pre_save_passwordChangedAt.
    by rewrite Hmod, Hnew. }
  split; [exact Hc|].
  unfold User.changedPasswordAfter. rewrite Hc. cbv zeta.
  rewrite parseInt10_seconds by lia.
  pose proof (Z.div_mod (now - 1000) 1000 ltac:(lia)) as Hdn.
  pose proof (Z.mod_pos_bound (now - 1000) 1000 ltac:(lia)) as Hmn.
  split; intros t Ht;
    pose proof (Z.div_mod t 1000 ltac:(lia)) as Hdt;
    pose proof (Z.mod_pos_bound t 1000 ltac:(lia)) as Hmt.
  - apply Z.ltb_ge. lia.
  - apply Z.ltb_lt. lia.
Qed.

Lemma password_change_and_tokens_witness :
  let u := User.mkDoc "Ada" "ada@example.com" "default.jpg" "user" "hash" None
             None None None true false true in
  let u' := User.pre_save_passwordChangedAt 10000 u in
  User.changedPasswordAfter u' 10 = false /\ User.changedPasswordAfter u' 8 = true.
Proof.
  intros u u'.
  destruct (password_change_and_tokens u 10000) as (_ & Hnew & Hold);
    [reflexivity|reflexivity|lia|].
  split.
  - exact (Hnew 10000%Z ltac:(lia)).
  - exact (Hold 8000%Z ltac:(lia)).
Defined.

(** ** Which review an update or delete changes *)

Lemma findOne_Some_prefix (c : Review -> bool) (d' : Review) (l : list Review)
    (d : Review) :
  findOne c l = Some d ->
  exists l1 l2,
    l = l1 ++ d :: l2 /\ Forall (fun r => c r = false) l1 /\ c d = true /\
    replace_first c d' l = l1 ++ d' :: l2 /\
    remove_first c l = l1 ++ l2.
Proof.
  unfold findOne. induction l as [|x l IH]; simpl; [done|].
  destruct (c x) eqn:Hx.
  - intros [= ->]. by exists [], l.
  - intros Hf. destruct (IH Hf) as (l1 & l2 & -> & Hpre & Hc & Hrep & Hrem).
    exists (x :: l1), l2. simpl. rewrite Hrep, Hrem.
    repeat split; try done. by constructor.
Qed.

(** X16: an update or delete by filter changes one review at most, also
    when the filter matches several: the first match in collection order,
    which is the review the pre hook captured. The reviews before and
    after it keep their place and content; the updated review keeps its
    [_id]; and this holds whether or not the recompute then fails. *)
Theorem findOneAnd_changes_only_captured
    (ft : Fault) (c : Review -> bool) (u : ReviewUpdate) (w : World) (d : Review) :
  findOne c (reviews w) = Some d ->
  exists l1 l2,
    reviews w = l1 ++ d :: l2 /\
    Forall (fun r => c r = false) l1 /\
    reviews (run ft (OpDelete c) w) = l1 ++ l2 /\
    _id (review_apply u d) = _id d /\
    (index_has (index_key (review_apply u d)) (reviews w) = false \/
     index_key (review_apply u d) = index_key d ->
     reviews (run ft (OpUpdate c u) w) = l1 ++ review_apply u d :: l2).
Proof.
  intros Hf.
  destruct (findOne_Some_prefix c (review_apply u d) _ _ Hf)
    as (l1 & l2 & Hl & Hpre & _ & Hrep & Hrem).
  exists l1, l2. split; [done|]. split; [done|]. split; [|split; [done|]].
  - simpl. rewrite Review_findOneAndDelete_unfold, Hf, after_recompute_snd.
    destruct (calcAverageRatings_frame ft (tour d)
      (with_reviews (remove_first c (reviews w)) w)) as (-> & _).
    done.
  - intros Hok. simpl. rewrite Review_findOneAndUpdate_unfold, Hf. cbv zeta.
    assert (Hno : bool_decide (index_key (review_apply u d) ≠ index_key d) &&
                  index_has (index_key (review_apply u d)) (reviews w) = false).
    { destruct Hok as [->|Hsame]; [apply andb_false_r|].
      rewrite bool_decide_eq_false_2; [done|]. by intros Hne. }
    rewrite Hno, after_recompute_snd.
    destruct (calcAverageRatings_frame ft (tour d)
      (with_reviews (replace_first c (review_apply u d) (reviews w)) w))
      as (-> & _).
    done.
Qed.

Lemma findOneAnd_changes_only_captured_witness :
  let c := fun r : Review => bool_decide (tour r = 1%N) in
  length (filter (fun r => c r = true) (reviews world_554)) = 3%nat /\
  reviews (run NoFault (OpDelete c) world_554) =
    [mkReview 101%N "great" (Some 5) 1%N 8%N;
     mkReview 102%N "good" (Some 4) 1%N 9%N].
Proof.
  intros c. split; [reflexivity|].
  destruct (findOneAnd_changes_only_captured NoFault c
              (mkUpdate None None None None) world_554
              (mkReview 100%N "great" (Some 5) 1%N 7%N))
    as (l1 & l2 & Hl & Hpre & Hdel & _); [reflexivity|].
  rewrite Hdel.
  destruct l1 as [|x l1].
  - simpl in Hl. by injection Hl as <-.
  - simpl in Hl. injection Hl as <- Hl.
    apply Forall_cons in Hpre as [Hx _]. vm_compute in Hx. discriminate.
Defined.
